(** * app.py: sentence segmentation, score normalisation, aggregation,
      tier mapping and rendering of the AI-text detector.

    Python [str] values are sequences of Unicode code points; they are
    embedded as lists of code points ([N]).  Python [float] scores are
    embedded as exact rationals ([Q]): every comparison and arithmetic
    step of the source is kept, rounding is not modelled. *)

From Stdlib Require Import Strings.String Strings.Ascii.
From Stdlib Require Import List NArith ZArith QArith Bool Arith Lia Lqa.
Import ListNotations.
Close Scope Q_scope.

Set Implicit Arguments.

(** ** Text primitives *)

Module Text.

Definition char := N.
Definition str := list char.

(** An ASCII literal of the source as a sequence of code points. *)
Definition lit (s : string) : str :=
  List.map N_of_ascii (list_ascii_of_string s).

Local Open Scope N_scope.

(** [str.isspace] on one code point (CPython's whitespace table); the
    regex class [\s] on [str] patterns uses the same table. *)
Definition isspace (c : char) : bool :=
  ((9 <=? c) && (c <=? 13)) || ((28 <=? c) && (c <=? 32))
  || (c =? 133) || (c =? 160) || (c =? 5760)
  || ((8192 <=? c) && (c <=? 8202))
  || (c =? 8232) || (c =? 8233) || (c =? 8239) || (c =? 8287)
  || (c =? 12288).

Definition nonspace (c : char) : bool := negb (isspace c).

(** The regex class [[.!?]]. *)
Definition is_terminal (c : char) : bool :=
  (c =? 46) || (c =? 33) || (c =? 63).

(** The regex class [[A-Z]]. *)
Definition is_upper (c : char) : bool := (65 <=? c) && (c <=? 90).

Local Close Scope N_scope.

Fixpoint lstrip (s : str) : str :=
  match s with
  | [] => []
  | c :: s' => if isspace c then lstrip s' else s
  end.

Definition rstrip (s : str) : str := rev (lstrip (rev s)).

(** [s.strip()] *)
Definition strip (s : str) : str := rstrip (lstrip s).

(** Truthiness of a Python sequence. *)
Definition truthy {A} (l : list A) : bool :=
  match l with [] => false | _ :: _ => true end.

(** [l1] is [l2] with some elements left out, the order kept. *)
Inductive Subseq {A : Type} : list A -> list A -> Prop :=
| Subseq_nil : Subseq [] []
| Subseq_skip x l1 l2 : Subseq l1 l2 -> Subseq l1 (x :: l2)
| Subseq_take x l1 l2 : Subseq l1 l2 -> Subseq (x :: l1) (x :: l2).

End Text.

Import Text.

(** ** The sentence segmenter *)

Module Segmenter.

(** Length of the longest prefix matched by [\s*]. *)
Fixpoint ws_run (s : str) : nat :=
  match s with
  | c :: s' => if isspace c then S (ws_run s') else 0
  | [] => 0
  end.

(** The lookahead [(?=[A-Z])]. *)
Definition lookahead_upper (s : str) : bool :=
  match s with
  | c :: _ => is_upper c
  | [] => false
  end.

(** Greedy [\s+] with backtracking: the longest run is tried first, then
    one character fewer, down to one; the lookahead decides. *)
Fixpoint backtrack (s : str) (k : nat) : option nat :=
  match k with
  | 0 => None
  | S k' => if lookahead_upper (skipn k s) then Some k else backtrack s k'
  end.

(** One attempt of [(?<=[.!?])\s+(?=[A-Z])] at a position: [prev] is the
    character before the position, [s] the text from it.  Gives the number
    of characters the match consumes. *)
Definition match_delim (prev : option char) (s : str) : option nat :=
  match prev with
  | Some p => if is_terminal p then backtrack s (ws_run s) else None
  | None => None
  end.

(** The scan of [re.split]: [skip] counts the characters still inside the
    delimiter found last, [cur] is the current piece, reversed. *)
Fixpoint split_go (skip : nat) (prev : option char) (cur : str) (s : str)
  : list str :=
  match s with
  | [] => [rev cur]
  | c :: s' =>
      match skip with
      | S k => split_go k (Some c) cur s'
      | 0 =>
          match match_delim prev s with
          | Some (S k) => rev cur :: split_go k (Some c) [] s'
          | _ => split_go 0 (Some c) (c :: cur) s'
          end
      end
  end.

(** [re.split(r'(?<=[.!?])\s+(?=[A-Z])', text)] *)
Definition re_split (text : str) : list str := split_go 0 None [] text.

(** [[s.strip() for s in sentences if s.strip()]] *)
Definition stripped_pieces (sentences : list str) : list str :=
  List.map strip (List.filter (fun s => truthy (strip s)) sentences).

(** The condition of the fallback [if]. *)
Definition fallback_taken (text : str) : bool :=
  negb (truthy (stripped_pieces (re_split text))) && truthy (strip text).

Definition simple_sentence_tokenize (text : str) : list str :=
  let sentences := re_split text in
  let final_sentences := stripped_pieces sentences in
  if negb (truthy final_sentences) && truthy (strip text)
  then final_sentences ++ [strip text]
  else final_sentences.

(** The pieces of a split put back together with the delimiters that
    were between them: [p0 ++ d1 ++ p1 ++ ... ++ dn ++ pn]. *)
Fixpoint weave (pieces delims : list str) : str :=
  match pieces, delims with
  | [], _ => []
  | p :: _, [] => p
  | p :: pieces', d :: delims' => p ++ d ++ weave pieces' delims'
  end.

(** A non-empty run of whitespace. *)
Definition is_gap (d : str) : bool := truthy d && forallb isspace d.

(** The first character is in [[A-Z]]. *)
Definition starts_upper (p : str) : bool :=
  match p with
  | c :: _ => is_upper c
  | [] => false
  end.

(** The last character is in [[.!?]]. *)
Definition ends_terminal (p : str) : bool :=
  match rev p with
  | c :: _ => is_terminal c
  | [] => false
  end.

End Segmenter.

Import Segmenter.

(** ** Scores: comparison, clamping, normalisation, aggregation *)

Module Scores.

(** [x < y] on scores. *)
Definition Qltb (x y : Q) : bool :=
  (Qnum x * QDen y <? Qnum y * QDen x)%Z.

(** [x >= y] on scores. *)
Definition Qgeb (x y : Q) : bool := Qle_bool y x.

(** The builtin [min(a, b)]: the first argument is kept unless the second
    is smaller. *)
Definition py_min (a b : Q) : Q := if Qltb b a then b else a.

(** The builtin [max(a, b)]: the first argument is kept unless the second
    is greater. *)
Definition py_max (a b : Q) : Q := if Qltb a b then b else a.

(** The builtin [sum]: a left fold from 0. *)
Definition py_sum (l : list Q) : Q := fold_left Qplus l 0%Q.

Fixpoint str_eqb (a b : str) : bool :=
  match a, b with
  | [], [] => true
  | x :: a', y :: b' => N.eqb x y && str_eqb a' b'
  | _, _ => false
  end.

(** One entry of the classifier's output: [result["label"]] and
    [result["score"]]. *)
Record ClsResult := { label : str; score : Q }.

Definition fake : str := lit "fake".

Section Normalizer.

(** [str.lower], Python's Unicode lowercasing. *)
Variable lower : str -> str.

(** [score if label.lower() == "fake" else 1.0 - score] *)
Definition ai_prob (result : ClsResult) : Q :=
  if str_eqb (lower (label result)) fake
  then score result
  else (1 - score result)%Q.

(** [max(0.0, min(1.0, ai_prob))] *)
Definition clamp (p : Q) : Q := py_max 0%Q (py_min 1%Q p).

(** The loop that fills [sentence_scores]. *)
Definition sentence_scores (results : list ClsResult) : list Q :=
  List.map (fun result => clamp (ai_prob result)) results.

End Normalizer.

(** True division [a / b]; [None] stands for [ZeroDivisionError]. *)
Definition py_div (a b : Q) : option Q :=
  if Qeq_bool b 0 then None else Some (a / b)%Q.

(** [sum(sentence_scores) / len(sentence_scores) if sentence_scores else 0.0] *)
Definition overall_prob (sentence_scores : list Q) : option Q :=
  if truthy sentence_scores
  then py_div (py_sum sentence_scores)
              (inject_Z (Z.of_nat (List.length sentence_scores)))
  else Some 0%Q.


(** ASCII lowercasing, the restriction of [str.lower] to Basic Latin. *)
Definition ascii_lower (s : str) : str :=
  List.map (fun c => if is_upper c then (c + 32)%N else c) s.

End Scores.

Import Scores.

(** ** Rendering *)

Module Render.

Definition strong_color : str := lit "rgba(255, 77, 77, 0.6)".
Definition moderate_color : str := lit "rgba(255, 165, 0, 0.5)".
Definition none_color : str := lit "transparent".

(** The colour chosen for one sentence. *)
Definition highlight_color (score : Q) : str :=
  if Qltb (75 # 100) score then strong_color
  else if Qltb (5 # 10) score then moderate_color
  else none_color.

(** [s.replace(c, rep)] for a one-character pattern. *)
Definition replace1 (c : char) (rep : str) (s : str) : str :=
  flat_map (fun x => if N.eqb x c then rep else [x]) s.

Definition ch_amp : char := 38%N.
Definition ch_lt : char := 60%N.
Definition ch_gt : char := 62%N.
Definition ch_dquote : char := 34%N.
Definition ch_squote : char := 39%N.

(** [html.escape(s)], with its default [quote=True]: five replacements,
    the ampersand first. *)
Definition html_escape (s : str) : str :=
  let s := replace1 ch_amp (lit "&amp;") s in
  let s := replace1 ch_lt (lit "&lt;") s in
  let s := replace1 ch_gt (lit "&gt;") s in
  let s := replace1 ch_dquote (lit "&quot;") s in
  replace1 ch_squote (lit "&#x27;") s.

(** The f-string appended for one sentence. *)
Definition span (color safe_sent : str) : str :=
  lit "<span style=" ++ [ch_dquote] ++ lit "background-color: " ++ color
  ++ lit "; padding: 2px 1px; line-height: 1.7;" ++ [ch_dquote] ++ lit ">"
  ++ safe_sent ++ lit "</span> ".

(** The text of one rendered sentence after its first [<], up to the
    closing tag. *)
Definition span_open (color safe_sent : str) : str :=
  lit "span style=" ++ [ch_dquote] ++ lit "background-color: " ++ color
  ++ lit "; padding: 2px 1px; line-height: 1.7;" ++ [ch_dquote] ++ lit ">"
  ++ safe_sent.

(** The loop over [zip(sentences, sentence_scores)] building
    [highlighted_text] by repeated [+=]. *)
Definition highlight (sentences : list str) (scores : list Q) : str :=
  fold_left
    (fun highlighted_text item =>
       highlighted_text
       ++ span (highlight_color (snd item)) (html_escape (fst item)))
    (combine sentences scores) [].

(** Is [pat] a prefix of [s]? *)
Fixpoint prefixb (pat s : str) : bool :=
  match pat, s with
  | [], _ => true
  | p :: pat', c :: s' => N.eqb p c && prefixb pat' s'
  | _ :: _, [] => false
  end.


(** What escaping makes of one character. *)
Definition esc_char (c : char) : str :=
  if N.eqb c ch_amp then lit "&amp;"
  else if N.eqb c ch_lt then lit "&lt;"
  else if N.eqb c ch_gt then lit "&gt;"
  else if N.eqb c ch_dquote then lit "&quot;"
  else if N.eqb c ch_squote then lit "&#x27;"
  else [c].

(** The order of the highlight colours: none, moderate, strong. *)
Definition color_rank (color : str) : nat :=
  if str_eqb color strong_color then 2
  else if str_eqb color moderate_color then 1
  else 0.

(** The character [d] does not occur in [s]. *)
Definition absent (d : char) (s : str) : bool :=
  forallb (fun x => negb (N.eqb x d)) s.

(** No [<] of [s] is followed by the letters [sc]. *)
Fixpoint no_open_sc (s : str) : bool :=
  match s with
  | [] => true
  | c :: s' =>
      negb (N.eqb c ch_lt && prefixb (lit "sc") s') && no_open_sc s'
  end.

End Render.

Import Render.

(** ** The application: detector calls, the cache and the page *)

Module App.

Inductive Verdict := LikelyAI | PossiblyAI | LikelyHuman.

Definition bar_reddish : str :=
  lit "linear-gradient(to right, #ffafbd, #ffc3a0)".
Definition bar_orangey : str :=
  lit "linear-gradient(to right, #ffc3a0, #ffdf7e)".
Definition bar_bluish : str :=
  lit "linear-gradient(to right, #a1c4fd, #c2e9fb)".

(** The three-way choice of the verdict message. *)
Definition verdict (overall_ai_prob : Q) : Verdict :=
  if Qgeb overall_ai_prob (7 # 10) then LikelyAI
  else if Qltb (4 # 10) overall_ai_prob then PossiblyAI
  else LikelyHuman.

(** The three-way choice of the progress bar's colour. *)
Definition bar_color (overall_ai_prob : Q) : str :=
  if Qgeb overall_ai_prob (7 # 10) then bar_reddish
  else if Qltb (4 # 10) overall_ai_prob then bar_orangey
  else bar_bluish.

(** What one run of the script does that can be observed: the model being
    built, a call of the classifier, the prompt for an empty text, the
    below-threshold box with the two lengths, and the result card with the
    verdict, the bar colour, the probability and the highlighted text. *)
Inductive Event :=
| EvBuildModel
| EvClassify (sentences : list str)
| EvPromptEmpty
| EvBelowThreshold (len min_len : nat)
| EvResult (v : Verdict) (bar : str) (prob : Q) (html : str).

Section Pipeline.

Variable lower : str -> str.

(** The classifier's own state, which a call may read and change. *)
Variable DState : Type.

(** The callable the model library hands out. *)
Definition Detector := list str -> DState -> list ClsResult * DState.

(** The process: the resource cache, the classifier's state and the
    trace of events so far. *)
Record World := {
  cache : option Detector;
  dstate : DState;
  trace : list Event
}.

(** A computation of the script: it may raise ([None]) and it changes
    the process. *)
Definition M (A : Type) := World -> option A * World.

Definition ret {A} (a : A) : M A := fun w => (Some a, w).

Definition bind {A B} (m : M A) (k : A -> M B) : M B :=
  fun w =>
    match m w with
    | (Some a, w') => k a w'
    | (None, w') => (None, w')
    end.

Local Notation "x <- m ;; k" := (bind m (fun x => k))
  (at level 61, m at next level, right associativity).

Definition lift {A} (o : option A) : M A := fun w => (o, w).

Definition emit (e : Event) : M unit :=
  fun w => (Some tt, {| cache := cache w; dstate := dstate w;
                        trace := trace w ++ [e] |}).

(** [detector(sentences, truncation=True)] *)
Definition call_detector (detector : Detector) (sentences : list str)
  : M (list ClsResult) :=
  fun w =>
    let (results, s') := detector sentences (dstate w) in
    (Some results, {| cache := cache w; dstate := s';
                      trace := trace w ++ [EvClassify sentences] |}).

(** The process after one call of the detector on [sentences]. *)
Definition after (detector : Detector) (sentences : list str) (w : World)
  : World :=
  {| cache := cache w;
     dstate := snd (detector sentences (dstate w));
     trace := trace w ++ [EvClassify sentences] |}.

(** What [pipeline("text-classification", ...)] builds. *)
Variable pipeline : Detector.

(** [load_detector] under [st.cache_resource]: built on the first call,
    the cached handle afterwards. *)
Definition load_detector : M Detector :=
  fun w =>
    match cache w with
    | Some d => (Some d, w)
    | None => (Some pipeline,
               {| cache := Some pipeline; dstate := dstate w;
                  trace := trace w ++ [EvBuildModel] |})
    end.

Definition analyze_and_highlight (detector : Detector) (text : str)
  : M (str * Q) :=
  let sentences := simple_sentence_tokenize text in
  if negb (truthy sentences) then ret ([], 0%Q)
  else
    results <- call_detector detector sentences ;;
    let sentence_scores := sentence_scores lower results in
    let highlighted_text := highlight sentences sentence_scores in
    overall_prob <- lift (overall_prob sentence_scores) ;;
    ret (highlighted_text, overall_prob).

(** The script's [if analyze:] block. *)
Definition on_analyze (analyze : bool) (text : str) (min_len : nat)
  : M unit :=
  if analyze then
    if negb (truthy (strip text)) then emit EvPromptEmpty
    else if List.length text <? min_len
    then emit (EvBelowThreshold (List.length text) min_len)
    else
      detector <- load_detector ;;
      r <- analyze_and_highlight detector text ;;
      let highlighted_html := fst r in
      let overall_ai_prob := snd r in
      emit (EvResult (verdict overall_ai_prob) (bar_color overall_ai_prob)
                     overall_ai_prob highlighted_html)
  else ret tt.

(** A classifier whose answer depends on its input only. *)
Definition deterministic (detector : Detector) : Prop :=
  forall sentences s1 s2,
    fst (detector sentences s1) = fst (detector sentences s2).

End Pipeline.

(** The order of the verdicts: likely human, possibly AI, likely AI. *)
Definition verdict_rank (v : Verdict) : nat :=
  match v with
  | LikelyHuman => 0
  | PossiblyAI => 1
  | LikelyAI => 2
  end.

(** The bar colour that goes with a verdict. *)
Definition verdict_bar (v : Verdict) : str :=
  match v with
  | LikelyAI => bar_reddish
  | PossiblyAI => bar_orangey
  | LikelyHuman => bar_bluish
  end.

Definition is_build (e : Event) : bool :=
  match e with EvBuildModel => true | _ => false end.

(** How often the model was built. *)
Definition builds (tr : list Event) : nat :=
  List.length (List.filter is_build tr).

(** The cache and the trace agree: nothing cached and nothing built, or
    the model cached and built once. *)
Definition cache_ok {DState} (pipeline : Detector DState) (w : World DState)
  : Prop :=
  match cache w with
  | None => builds (trace w) = 0
  | Some d => d = pipeline /\ builds (trace w) = 1
  end.

Definition is_classify (e : Event) : bool :=
  match e with EvClassify _ => true | _ => false end.

Definition is_result (e : Event) : bool :=
  match e with EvResult _ _ _ _ => true | _ => false end.

(** A test double: labels every sentence ("fake", 0.9) and counts its
    calls in its state. *)
Definition counting_detector : Detector nat :=
  fun sentences n =>
    (List.map (fun _ => {| label := lit "fake"; score := 9 # 10 |}) sentences,
     S n).

Definition fresh_world : World nat :=
  {| cache := None; dstate := 0; trace := [] |}.

End App.

Import App.

(** * Properties *)

(** ** Segmentation *)

Module SegmenterFacts.

Lemma filter_lstrip (s : str) :
  filter nonspace (lstrip s) = filter nonspace s.
Proof.
  induction s as [|c s IH]; simpl; auto.
  assert (Hn : nonspace c = negb (isspace c)) by reflexivity.
  destruct (isspace c); rewrite Hn; simpl; auto.
  now rewrite Hn.
Qed.

Lemma lstrip_nil (s : str) : lstrip s = [] <-> filter nonspace s = [].
Proof.
  induction s as [|c s IH]; simpl.
  - tauto.
  - unfold nonspace at 1. destruct (isspace c); simpl; auto.
    split; discriminate.
Qed.

Lemma filter_rev_comm (f : char -> bool) (l : str) :
  filter f (rev l) = rev (filter f l).
Proof.
  induction l as [|c l IH]; simpl; auto.
  rewrite filter_app, IH. simpl. destruct (f c); simpl; auto.
  now rewrite app_nil_r.
Qed.

Lemma rev_nil_iff (l : str) : rev l = [] <-> l = [].
Proof.
  split; intro H.
  - rewrite <- (rev_involutive l), H. reflexivity.
  - subst. reflexivity.
Qed.

Lemma filter_strip (s : str) :
  filter nonspace (strip s) = filter nonspace s.
Proof.
  unfold strip, rstrip.
  rewrite filter_rev_comm, filter_lstrip, filter_rev_comm, rev_involutive.
  apply filter_lstrip.
Qed.

Lemma strip_nil (s : str) : strip s = [] <-> filter nonspace s = [].
Proof.
  unfold strip, rstrip.
  rewrite rev_nil_iff, lstrip_nil, filter_rev_comm, rev_nil_iff.
  now rewrite filter_lstrip.
Qed.

Lemma truthy_false {A} (l : list A) : truthy l = false <-> l = [].
Proof. destruct l; simpl; split; congruence. Qed.

Lemma truthy_true {A} (l : list A) : truthy l = true <-> l <> [].
Proof. destruct l; simpl; split; congruence. Qed.

Lemma blank_strip (s : str) : forallb isspace s = true -> strip s = [].
Proof.
  intro H. apply strip_nil.
  induction s as [|c s IH]; simpl in *; auto.
  apply andb_prop in H. destruct H as [Hc Hs].
  unfold nonspace at 1. rewrite Hc. simpl. auto.
Qed.

Lemma strip_blank (s : str) : strip s = [] -> forallb isspace s = true.
Proof.
  intro H. apply strip_nil in H.
  induction s as [|c s IH]; simpl in *; auto.
  unfold nonspace in H at 1.
  destruct (isspace c); simpl in *; [auto | discriminate].
Qed.

(** The backtracking of [\s+] never gives more than it was offered, and
    never an empty match. *)
Lemma backtrack_bound (s : str) (k n : nat) :
  backtrack s k = Some n -> 1 <= n <= k.
Proof.
  induction k as [|k IH]; simpl; [discriminate|].
  destruct (lookahead_upper _).
  - intro H. injection H as <-. lia.
  - intro H. apply IH in H. lia.
Qed.

Lemma match_delim_bound (prev : option char) (s : str) (n : nat) :
  match_delim prev s = Some n -> 1 <= n <= ws_run s.
Proof.
  unfold match_delim. destruct prev as [p|]; [|discriminate].
  destruct (is_terminal p); [|discriminate].
  apply backtrack_bound.
Qed.

Lemma ws_run_cons (c : char) (s : str) (k : nat) :
  S k <= ws_run (c :: s) -> isspace c = true /\ k <= ws_run s.
Proof.
  simpl. destruct (isspace c); [split; auto; lia | lia].
Qed.

Lemma filter_space (c : char) (l : str) :
  isspace c = true -> filter nonspace (c :: l) = filter nonspace l.
Proof. intro H. simpl. unfold nonspace at 1. now rewrite H. Qed.

(** The delimiters that [re.split] removes consist of whitespace only. *)
Lemma split_go_keeps (s : str) :
  forall skip prev cur,
    skip <= ws_run s ->
    filter nonspace (List.concat (split_go skip prev cur s))
    = filter nonspace (rev cur ++ s).
Proof.
  induction s as [|c s IH]; intros skip prev cur Hskip.
  - simpl. now rewrite app_nil_r.
  - cbn [split_go]. destruct skip as [|k].
    + destruct (match_delim prev (c :: s)) as [[|k]|] eqn:Hm.
      * rewrite IH by lia. simpl. now rewrite <- app_assoc.
      * apply match_delim_bound in Hm. destruct Hm as [_ Hm].
        apply ws_run_cons in Hm. destruct Hm as [Hc Hk].
        cbn [List.concat]. rewrite !filter_app, IH by exact Hk.
        rewrite filter_space by exact Hc. reflexivity.
      * rewrite IH by lia. simpl. now rewrite <- app_assoc.
    + apply ws_run_cons in Hskip. destruct Hskip as [Hc Hk].
      rewrite IH by exact Hk. rewrite !filter_app.
      rewrite filter_space by exact Hc. reflexivity.
Qed.

Lemma re_split_keeps (text : str) :
  filter nonspace (List.concat (re_split text)) = filter nonspace text.
Proof.
  unfold re_split. rewrite split_go_keeps by lia. reflexivity.
Qed.

Lemma stripped_pieces_keeps (l : list str) :
  filter nonspace (List.concat (stripped_pieces l))
  = filter nonspace (List.concat l).
Proof.
  unfold stripped_pieces.
  induction l as [|s l IH]; simpl; auto.
  rewrite filter_app.
  destruct (truthy (strip s)) eqn:Ht; simpl.
  - rewrite filter_app, filter_strip. now f_equal.
  - apply truthy_false, strip_nil in Ht. now rewrite Ht.
Qed.

Lemma stripped_pieces_nonempty (l : list str) :
  Forall (fun s => s <> []) (stripped_pieces l).
Proof.
  unfold stripped_pieces.
  induction l as [|s l IH]; simpl; [constructor|].
  destruct (truthy (strip s)) eqn:Ht; simpl; auto.
  constructor; auto. now apply truthy_true.
Qed.

Lemma stripped_pieces_nil (l : list str) :
  stripped_pieces l = [] <-> filter nonspace (List.concat l) = [].
Proof.
  unfold stripped_pieces.
  induction l as [|s l IH]; simpl; [tauto|].
  rewrite filter_app.
  destruct (truthy (strip s)) eqn:Ht; simpl.
  - split; [discriminate|]. intro H.
    apply app_eq_nil in H. destruct H as [H _].
    apply strip_nil in H. rewrite H in Ht. discriminate.
  - apply truthy_false, strip_nil in Ht. now rewrite Ht.
Qed.

(** Splitting and trimming leaves nothing exactly when the text is blank. *)
Lemma pieces_nil (text : str) :
  stripped_pieces (re_split text) = [] <-> strip text = [].
Proof. now rewrite stripped_pieces_nil, re_split_keeps, strip_nil. Qed.

(** The test of the fallback [if] never succeeds. *)
Lemma fallback_dead (text : str) : fallback_taken text = false.
Proof.
  unfold fallback_taken.
  destruct (truthy (stripped_pieces (re_split text))) eqn:Hp; simpl; auto.
  now apply truthy_false, pieces_nil, truthy_false.
Qed.

Lemma tokenize_unfold (text : str) :
  simple_sentence_tokenize text = stripped_pieces (re_split text).
Proof.
  unfold simple_sentence_tokenize.
  change (negb (truthy (stripped_pieces (re_split text)))
          && truthy (strip text)) with (fallback_taken text).
  now rewrite fallback_dead.
Qed.

(** Without a delimiter match the text comes back as one piece. *)
Lemma split_go_no_terminal (s : str) :
  forall prev cur,
    match prev with Some p => is_terminal p = false | None => True end ->
    forallb (fun c => negb (is_terminal c)) s = true ->
    split_go 0 prev cur s = [rev cur ++ s].
Proof.
  induction s as [|c s IH]; intros prev cur Hp Hs.
  - simpl. now rewrite app_nil_r.
  - simpl in Hs. apply andb_prop in Hs. destruct Hs as [Hc Hs].
    assert (Hm : match_delim prev (c :: s) = None).
    { unfold match_delim. destruct prev as [p|]; auto. now rewrite Hp. }
    cbn [split_go]. rewrite Hm.
    rewrite IH; auto.
    + simpl. now rewrite <- app_assoc.
    + now apply negb_true_iff.
Qed.

Lemma lookahead_no_upper (s : str) (k : nat) :
  forallb (fun c => negb (is_upper c)) s = true ->
  lookahead_upper (skipn k s) = false.
Proof.
  revert k. induction s as [|c s IH]; intros k H.
  - destruct k; reflexivity.
  - simpl in H. apply andb_prop in H. destruct H as [Hc Hs].
    destruct k; simpl.
    + now apply negb_true_iff.
    + now apply IH.
Qed.

Lemma backtrack_no_upper (s : str) (k : nat) :
  forallb (fun c => negb (is_upper c)) s = true -> backtrack s k = None.
Proof.
  intro H. induction k as [|k IH]; cbn [backtrack]; auto.
  now rewrite lookahead_no_upper.
Qed.

Lemma split_go_no_upper (s : str) :
  forall prev cur,
    forallb (fun c => negb (is_upper c)) s = true ->
    split_go 0 prev cur s = [rev cur ++ s].
Proof.
  induction s as [|c s IH]; intros prev cur Hs.
  - simpl. now rewrite app_nil_r.
  - assert (Hm : match_delim prev (c :: s) = None).
    { unfold match_delim. destruct prev as [p|]; auto.
      destruct (is_terminal p); auto. now apply backtrack_no_upper. }
    cbn [split_go]. rewrite Hm.
    simpl in Hs. apply andb_prop in Hs. destruct Hs as [_ Hs].
    rewrite IH by exact Hs. simpl. now rewrite <- app_assoc.
Qed.

Lemma one_piece (text : str) :
  strip text <> [] ->
  re_split text = [text] ->
  simple_sentence_tokenize text = [strip text].
Proof.
  intros Hne Hsplit. rewrite tokenize_unfold, Hsplit.
  unfold stripped_pieces. simpl.
  apply truthy_true in Hne. now rewrite Hne.
Qed.

End SegmenterFacts.

Section SegmenterClaims.

Import SegmenterFacts.

Lemma filter_Subseq {A} (f : A -> bool) (l : list A) : Subseq (filter f l) l.
Proof.
  induction l as [|x l IH]; simpl.
  - constructor.
  - destruct (f x); now constructor.
Qed.

(** C6: blank input gives no sentence; a text with characters in which no
    sentence boundary is found (or for which the split-and-trim list is
    empty) gives exactly its trimmed form, as when it has no terminal
    punctuation or no uppercase letter at all; and
    "This is one. This is two." gives its two sentences in order. *)
Theorem segmentation_edge_cases :
  (forall text, forallb isspace text = true ->
                simple_sentence_tokenize text = [])
  /\ (forall text,
        strip text <> [] ->
        stripped_pieces (re_split text) = [] \/ re_split text = [text] ->
        simple_sentence_tokenize text = [strip text])
  /\ (forall text,
        strip text <> [] ->
        forallb (fun c => negb (is_terminal c)) text = true
        \/ forallb (fun c => negb (is_upper c)) text = true ->
        simple_sentence_tokenize text = [strip text])
  /\ simple_sentence_tokenize (lit "") = []
  /\ simple_sentence_tokenize (lit "Hello world") = [lit "Hello world"]
  /\ simple_sentence_tokenize (lit "This is one. This is two.")
     = [lit "This is one."; lit "This is two."].
Proof.
  split; [|split; [|split; [|repeat split; reflexivity]]].
  - intros text Hb. apply blank_strip in Hb.
    rewrite tokenize_unfold. now apply pieces_nil.
  - intros text Hne [Hnil | Hone].
    + unfold simple_sentence_tokenize. rewrite Hnil. simpl.
      apply truthy_true in Hne. now rewrite Hne.
    + now apply one_piece.
  - intros text Hne [Hterm | Hup]; apply one_piece; auto; unfold re_split.
    + now rewrite split_go_no_terminal.
    + now rewrite split_go_no_upper.
Qed.

Lemma segmentation_edge_cases_witness :
  simple_sentence_tokenize (lit "   ") = []
  /\ simple_sentence_tokenize (lit " one. two ")
     = [strip (lit " one. two ")]
  /\ simple_sentence_tokenize (lit " no stop HERE ")
     = [strip (lit " no stop HERE ")].
Proof.
  destruct segmentation_edge_cases as [Hblank [Hone [Hcls _]]].
  split; [|split].
  - apply (Hblank (lit "   ")). reflexivity.
  - apply (Hone (lit " one. two ")).
    + vm_compute. discriminate.
    + right. reflexivity.
  - apply (Hcls (lit " no stop HERE ")).
    + vm_compute. discriminate.
    + left. reflexivity.
Defined.

(** C7: the sentences returned for a text contain exactly its
    non-whitespace characters, in order (so each of them appears, in order,
    in the concatenation of the sentences), and no sentence is empty. *)
Theorem segmentation_keeps_nonspace (text : str) :
  filter nonspace (List.concat (simple_sentence_tokenize text))
  = filter nonspace text
  /\ Subseq (filter nonspace text)
            (List.concat (simple_sentence_tokenize text))
  /\ Forall (fun s => s <> []) (simple_sentence_tokenize text).
Proof.
  rewrite tokenize_unfold.
  assert (H : filter nonspace (List.concat (stripped_pieces (re_split text)))
              = filter nonspace text)
    by now rewrite stripped_pieces_keeps, re_split_keeps.
  split; [exact H | split].
  - rewrite <- H. apply filter_Subseq.
  - apply stripped_pieces_nonempty.
Qed.

(** C10: the fallback branch of the segmenter is dead code: its test is
    false for every text, a text with a non-empty trimmed form already has
    a non-empty split-and-trim list, and the result is non-empty exactly
    when the trimmed text is. *)
Theorem fallback_unreachable (text : str) :
  fallback_taken text = false
  /\ simple_sentence_tokenize text = stripped_pieces (re_split text)
  /\ (strip text <> [] -> stripped_pieces (re_split text) <> [])
  /\ (simple_sentence_tokenize text <> [] <-> strip text <> []).
Proof.
  pose proof (pieces_nil text) as Hpieces.
  split; [apply fallback_dead | split; [apply tokenize_unfold | split]].
  - intros Hne Hnil. apply Hne. now apply Hpieces.
  - rewrite tokenize_unfold. now rewrite Hpieces.
Qed.

Lemma fallback_unreachable_witness :
  stripped_pieces (re_split (lit " no stop here ")) <> []
  /\ simple_sentence_tokenize (lit " no stop here ") <> [].
Proof.
  destruct (fallback_unreachable (lit " no stop here "))
    as [_ [_ [Hp Hiff]]].
  split.
  - apply Hp. vm_compute. discriminate.
  - apply Hiff. vm_compute. discriminate.
Defined.

End SegmenterClaims.

(** ** Scores and tiers *)

Module ScoreFacts.

Local Open Scope Q_scope.

Lemma Qltb_lt (x y : Q) : Qltb x y = true <-> x < y.
Proof. unfold Qltb, Qlt. apply Z.ltb_lt. Qed.

Lemma Qltb_ge (x y : Q) : Qltb x y = false <-> y <= x.
Proof. unfold Qltb, Qle. apply Z.ltb_ge. Qed.

Lemma Qgeb_ge (x y : Q) : Qgeb x y = true <-> y <= x.
Proof. unfold Qgeb. apply Qle_bool_iff. Qed.

Lemma Qgeb_lt (x y : Q) : Qgeb x y = false <-> x < y.
Proof.
  rewrite <- not_true_iff_false, Qgeb_ge. split.
  - apply Qnot_le_lt.
  - apply Qlt_not_le.
Qed.

(** Case analysis on the comparisons of the source. *)
Ltac cmp :=
  repeat match goal with
  | |- context [Qltb ?x ?y] =>
      let E := fresh "E" in
      destruct (Qltb x y) eqn:E;
      [apply Qltb_lt in E | apply Qltb_ge in E]
  | |- context [Qgeb ?x ?y] =>
      let E := fresh "E" in
      destruct (Qgeb x y) eqn:E;
      [apply Qgeb_ge in E | apply Qgeb_lt in E]
  end.


Lemma py_min_1 (p : Q) :
  (p < 1 /\ py_min 1 p = p) \/ (1 <= p /\ py_min 1 p = 1).
Proof. unfold py_min. cmp; auto. Qed.

Lemma py_max_0 (p : Q) :
  (0 < p /\ py_max 0 p = p) \/ (p <= 0 /\ py_max 0 p = 0).
Proof. unfold py_max. cmp; auto. Qed.

Lemma clamp_range (p : Q) : 0 <= clamp p <= 1.
Proof.
  unfold clamp.
  destruct (py_min_1 p) as [[H1 ->] | [H1 ->]];
    [destruct (py_max_0 p) as [[H0 ->] | [H0 ->]]
    |destruct (py_max_0 1) as [[H0 ->] | [H0 ->]]]; lra.
Qed.


Lemma sentence_scores_range (lower : str -> str) (results : list ClsResult) :
  Forall (fun s => 0 <= s <= 1) (sentence_scores lower results).
Proof.
  unfold sentence_scores. apply Forall_forall. intros s Hin.
  apply in_map_iff in Hin. destruct Hin as [r [<- _]]. apply clamp_range.
Qed.

Lemma py_sum_from (l : list Q) (a : Q) :
  fold_left Qplus l a == a + fold_right Qplus 0 l.
Proof.
  revert a. induction l as [|x l IH]; intro a; simpl.
  - lra.
  - rewrite IH. lra.
Qed.

Lemma py_sum_fold_right (l : list Q) : py_sum l == fold_right Qplus 0 l.
Proof. unfold py_sum. rewrite py_sum_from. lra. Qed.

Lemma sum_range (l : list Q) :
  Forall (fun s => 0 <= s <= 1) l ->
  0 <= fold_right Qplus 0 l <= inject_Z (Z.of_nat (List.length l)).
Proof.
  induction 1 as [|x l Hx _ IH].
  - simpl. change (inject_Z 0) with 0. lra.
  - cbn [fold_right List.length]. rewrite Nat2Z.inj_succ.
    unfold Z.succ. rewrite inject_Z_plus.
    change (inject_Z 1) with 1. lra.
Qed.

Lemma len_pos {A} (l : list A) :
  l <> [] -> 0 < inject_Z (Z.of_nat (List.length l)).
Proof.
  intro H. destruct l as [|x l]; [congruence|].
  change 0 with (inject_Z 0). rewrite <- Zlt_Qlt.
  cbn [List.length]. lia.
Qed.

Lemma py_div_some (a b : Q) : 0 < b -> py_div a b = Some (a / b).
Proof.
  intro H. unfold py_div.
  destruct (Qeq_bool b 0) eqn:E; auto.
  apply Qeq_bool_iff in E. lra.
Qed.

Lemma overall_prob_some (scores : list Q) :
  scores <> [] ->
  overall_prob scores
  = Some (py_sum scores / inject_Z (Z.of_nat (List.length scores))).
Proof.
  intro H. unfold overall_prob.
  destruct scores as [|x l]; [congruence|].
  cbn [truthy]. apply py_div_some. now apply len_pos.
Qed.

Lemma mean_range (scores : list Q) :
  scores <> [] ->
  Forall (fun s => 0 <= s <= 1) scores ->
  0 <= py_sum scores / inject_Z (Z.of_nat (List.length scores)) <= 1.
Proof.
  intros Hne Hall. pose proof (len_pos Hne) as Hn.
  pose proof (sum_range Hall) as Hs.
  rewrite <- py_sum_fold_right in Hs. split.
  - apply Qle_shift_div_l; auto. lra.
  - apply Qle_shift_div_r; auto. lra.
Qed.

End ScoreFacts.

Section ScoreClaims.

Import ScoreFacts.
Local Open Scope Q_scope.

(** C2: the highlight colour is decided by the score alone: strong exactly
    when score > 0.75, moderate exactly when 0.5 < score <= 0.75, none
    exactly when score <= 0.5; the three colours differ, and a score of
    exactly 0.75 is moderate. *)
Theorem sentence_tier_mapping (score : Q) :
  (75 # 100 < score <-> highlight_color score = strong_color)
  /\ (5 # 10 < score <= 75 # 100 <-> highlight_color score = moderate_color)
  /\ (score <= 5 # 10 <-> highlight_color score = none_color)
  /\ highlight_color (75 # 100) = moderate_color
  /\ highlight_color (3 # 4) = moderate_color.
Proof.
  assert (Hsm : strong_color <> moderate_color) by (vm_compute; discriminate).
  assert (Hsn : strong_color <> none_color) by (vm_compute; discriminate).
  assert (Hmn : moderate_color <> none_color) by (vm_compute; discriminate).
  unfold highlight_color.
  split; [|split; [|split; [|split; reflexivity]]];
    (split; cmp; intro H; try congruence; try lra).
Qed.

Lemma sentence_tier_mapping_witness :
  highlight_color (9 # 10) = strong_color
  /\ highlight_color (6 # 10) = moderate_color
  /\ highlight_color (5 # 10) = none_color.
Proof.
  destruct (sentence_tier_mapping (9 # 10)) as [[Hs _] _].
  destruct (sentence_tier_mapping (6 # 10)) as [_ [[Hm _] _]].
  destruct (sentence_tier_mapping (5 # 10)) as [_ [_ [[Hn _] _]]].
  split; [|split].
  - apply Hs. reflexivity.
  - apply Hm. split; [reflexivity | discriminate].
  - apply Hn. discriminate.
Defined.

(** C3: the verdict is decided by the overall score alone: likely-AI
    exactly when score >= 0.7, possibly-AI exactly when 0.4 < score < 0.7,
    likely-human exactly when score <= 0.4; exactly 0.7 is likely-AI and
    exactly 0.4 is likely-human. *)
Theorem verdict_tier_mapping (score : Q) :
  (7 # 10 <= score <-> verdict score = LikelyAI)
  /\ (4 # 10 < score < 7 # 10 <-> verdict score = PossiblyAI)
  /\ (score <= 4 # 10 <-> verdict score = LikelyHuman)
  /\ verdict (7 # 10) = LikelyAI
  /\ verdict (4 # 10) = LikelyHuman.
Proof.
  unfold verdict.
  split; [|split; [|split; [|split; reflexivity]]];
    (split; cmp; intro H; try congruence; try lra).
Qed.

Lemma verdict_tier_mapping_witness :
  verdict (8 # 10) = LikelyAI
  /\ verdict (55 # 100) = PossiblyAI
  /\ verdict (1 # 10) = LikelyHuman.
Proof.
  destruct (verdict_tier_mapping (8 # 10)) as [[Ha _] _].
  destruct (verdict_tier_mapping (55 # 100)) as [_ [[Hp _] _]].
  destruct (verdict_tier_mapping (1 # 10)) as [_ [_ [[Hh _] _]]].
  split; [|split].
  - apply Ha. discriminate.
  - apply Hp. split; reflexivity.
  - apply Hh. discriminate.
Defined.





End ScoreClaims.

(** ** Rendering *)

Module RenderFacts.

Lemma absent_app (d : char) (a b : str) :
  absent d (a ++ b) = absent d a && absent d b.
Proof. unfold absent. apply forallb_app. Qed.

(** Replacing [c] by a text without [c] leaves no [c]. *)
Lemma replace1_kill (c : char) (rep s : str) :
  absent c rep = true -> absent c (replace1 c rep s) = true.
Proof.
  intro Hrep. unfold replace1.
  induction s as [|x s IH]; simpl; auto.
  rewrite absent_app, IH, andb_true_r.
  destruct (N.eqb x c) eqn:E; auto.
  simpl. now rewrite E.
Qed.

(** A replacement brings in [d] only through the replacement text. *)
Lemma replace1_keep (d c : char) (rep s : str) :
  absent d rep = true -> absent d s = true ->
  absent d (replace1 c rep s) = true.
Proof.
  intros Hrep Hs. unfold replace1.
  induction s as [|x s IH]; simpl; auto.
  simpl in Hs. apply andb_prop in Hs. destruct Hs as [Hx Hs].
  rewrite absent_app, IH by exact Hs. rewrite andb_true_r.
  destruct (N.eqb x c); auto.
  simpl. now rewrite Hx.
Qed.

Lemma escape_no_lt (s : str) : absent ch_lt (html_escape s) = true.
Proof.
  unfold html_escape.
  do 3 (apply replace1_keep; [reflexivity|]).
  now apply replace1_kill.
Qed.




Lemma color_no_lt (score : Q) : absent ch_lt (highlight_color score) = true.
Proof.
  unfold highlight_color.
  destruct (Qltb _ _); [reflexivity|]. destruct (Qltb _ _); reflexivity.
Qed.



(** A stretch without [<] can be skipped. *)
Lemma no_open_sc_skip (a b : str) :
  absent ch_lt a = true -> no_open_sc (a ++ b) = no_open_sc b.
Proof.
  induction a as [|x a IH]; intro H; auto.
  simpl in H. apply andb_prop in H. destruct H as [Hx Ha].
  cbn [app no_open_sc]. rewrite (IH Ha).
  apply negb_true_iff in Hx. now rewrite Hx.
Qed.

Lemma prefixb_short (pat a b : str) :
  List.length pat <= List.length a -> prefixb pat (a ++ b) = prefixb pat a.
Proof.
  revert a. induction pat as [|p pat IH]; intros a H; [reflexivity|].
  destruct a as [|x a]; simpl in H; [lia|].
  simpl. rewrite IH by lia. reflexivity.
Qed.

(** A [<] followed by a text that does not begin with [sc] and holds no
    further [<] can be skipped. *)
Lemma no_open_sc_tag (a b : str) :
  absent ch_lt a = true ->
  2 <= List.length a ->
  prefixb (lit "sc") a = false ->
  no_open_sc (ch_lt :: a ++ b) = no_open_sc b.
Proof.
  intros Ha Hlen Hsc. cbn [no_open_sc].
  rewrite prefixb_short, Hsc, no_open_sc_skip by assumption.
  now rewrite andb_false_r.
Qed.

Lemma span_shape (color safe_sent : str) :
  span color safe_sent
  = ch_lt :: span_open color safe_sent ++ ch_lt :: lit "/span> ".
Proof.
  unfold span, span_open.
  change (lit "<span style=") with (ch_lt :: lit "span style=").
  change (lit "</span> ") with (ch_lt :: lit "/span> ").
  rewrite <- !app_assoc. reflexivity.
Qed.

(** One rendered sentence opens with [<span] and closes with [</span>]:
    neither starts [<sc]. *)
Lemma no_open_sc_span (color safe_sent rest : str) :
  absent ch_lt color = true ->
  absent ch_lt safe_sent = true ->
  no_open_sc (span color safe_sent ++ rest) = no_open_sc rest.
Proof.
  intros Hcol Hsent. rewrite span_shape.
  change ((ch_lt :: span_open color safe_sent ++ ch_lt :: lit "/span> ")
          ++ rest)
    with (ch_lt :: (span_open color safe_sent ++ ch_lt :: lit "/span> ")
                ++ rest).
  rewrite <- app_assoc. rewrite no_open_sc_tag.
  - change ((ch_lt :: lit "/span> ") ++ rest)
      with (ch_lt :: lit "/span> " ++ rest).
    apply no_open_sc_tag; [reflexivity | simpl; lia | reflexivity].
  - unfold span_open. rewrite !absent_app, Hcol, Hsent. reflexivity.
  - unfold span_open. rewrite length_app. simpl. lia.
  - unfold span_open. rewrite prefixb_short; [reflexivity | simpl; lia].
Qed.

Lemma fold_left_append {A} (f : A -> str) (l : list A) (acc : str) :
  fold_left (fun text item => text ++ f item) l acc
  = acc ++ List.concat (List.map f l).
Proof.
  revert acc. induction l as [|x l IH]; intro acc; simpl.
  - now rewrite app_nil_r.
  - now rewrite IH, app_assoc.
Qed.

Lemma highlight_concat (sentences : list str) (scores : list Q) :
  highlight sentences scores
  = List.concat
      (List.map (fun item => span (highlight_color (snd item))
                                  (html_escape (fst item)))
                (combine sentences scores)).
Proof. unfold highlight. now rewrite fold_left_append. Qed.

Lemma highlight_no_open_sc (sentences : list str) (scores : list Q) :
  no_open_sc (highlight sentences scores) = true.
Proof.
  rewrite highlight_concat.
  induction (combine sentences scores) as [|item l IH]; [reflexivity|].
  cbn [List.map List.concat].
  rewrite no_open_sc_span; auto using color_no_lt, escape_no_lt.
Qed.

End RenderFacts.

(** ** The pipeline and the page *)

Module AppFacts.

Import SegmenterFacts ScoreFacts.

Lemma overall_prob_total (scores : list Q) :
  exists p, overall_prob scores = Some p.
Proof.
  destruct scores as [|x l].
  - now exists 0%Q.
  - eexists. apply overall_prob_some. discriminate.
Qed.

Section Runs.

Variable lower : str -> str.
Variable DState : Type.
Variable detector : Detector DState.

Lemma analyze_blank (text : str) (w : World DState) :
  simple_sentence_tokenize text = [] ->
  analyze_and_highlight lower detector text w = (Some ([], 0%Q), w).
Proof.
  intro H. unfold analyze_and_highlight. rewrite H. reflexivity.
Qed.

Lemma analyze_run (text : str) (w : World DState) :
  simple_sentence_tokenize text <> [] ->
  let sentences := simple_sentence_tokenize text in
  let scores :=
    sentence_scores lower (fst (detector sentences (dstate w))) in
  exists p,
    overall_prob scores = Some p
    /\ analyze_and_highlight lower detector text w
       = (Some (highlight sentences scores, p),
          after detector sentences w).
Proof.
  intros Hne sentences scores.
  destruct (overall_prob_total scores) as [p Hp].
  exists p. split; [exact Hp|].
  unfold analyze_and_highlight. fold sentences.
  apply truthy_true in Hne. fold sentences in Hne. rewrite Hne.
  cbn [negb]. unfold bind, call_detector, lift, ret, after.
  subst scores. destruct (detector sentences (dstate w)) as [results s'].
  cbn [fst snd] in *. rewrite Hp. reflexivity.
Qed.

(** The pipeline always returns a page and a probability. *)
Lemma analyze_returns (text : str) (w : World DState) :
  exists html p,
    fst (analyze_and_highlight lower detector text w) = Some (html, p)
    /\ no_open_sc html = true.
Proof.
  destruct (simple_sentence_tokenize text) as [|s l] eqn:Hs.
  - exists [], 0%Q. rewrite analyze_blank by exact Hs. now split.
  - assert (Hne : simple_sentence_tokenize text <> [])
      by (rewrite Hs; discriminate).
    destruct (@analyze_run text w Hne) as [p [_ Hrun]].
    do 2 eexists. rewrite Hrun. split; [reflexivity|].
    apply RenderFacts.highlight_no_open_sc.
Qed.

End Runs.

End AppFacts.

Section AppClaims.

Import SegmenterFacts ScoreFacts RenderFacts AppFacts.


(** C9: with a classifier whose answer depends on its input only, two
    runs of the pipeline on the same text, from any two states of the
    process, return the same page and the same overall probability and
    compute the same sentence scores; so does a second run that follows
    the first; and each run returns. *)
Theorem pipeline_deterministic
  (lower : str -> str) (DState : Type) (detector : Detector DState)
  (text : str) (w1 w2 : World DState) :
  deterministic detector ->
  fst (analyze_and_highlight lower detector text w1)
  = fst (analyze_and_highlight lower detector text w2)
  /\ sentence_scores lower
       (fst (detector (simple_sentence_tokenize text) (dstate w1)))
     = sentence_scores lower
         (fst (detector (simple_sentence_tokenize text) (dstate w2)))
  /\ fst (analyze_and_highlight lower detector text
            (snd (analyze_and_highlight lower detector text w1)))
     = fst (analyze_and_highlight lower detector text w1)
  /\ exists html p,
       fst (analyze_and_highlight lower detector text w1) = Some (html, p).
Proof.
  intro Hdet.
  assert (Hany : forall wa wb,
             fst (analyze_and_highlight lower detector text wa)
             = fst (analyze_and_highlight lower detector text wb)).
  { intros wa wb.
    destruct (simple_sentence_tokenize text) as [|s l] eqn:Hs.
    - now rewrite !analyze_blank by exact Hs.
    - assert (Hne : simple_sentence_tokenize text <> [])
        by (rewrite Hs; discriminate).
      destruct (@analyze_run lower DState detector text wa Hne)
        as [pa [Hpa Ha]].
      destruct (@analyze_run lower DState detector text wb Hne)
        as [pb [Hpb Hb]].
      rewrite Ha, Hb. cbn [fst].
      rewrite (Hdet _ (dstate wa) (dstate wb)) in Hpa |- *.
      congruence. }
  split; [apply Hany | split; [| split; [apply Hany|]]].
  - now rewrite (Hdet _ (dstate w1) (dstate w2)).
  - destruct (@analyze_returns lower DState detector text w1)
      as [html [p [Hr _]]].
    now exists html, p.
Qed.

Lemma pipeline_deterministic_witness :
  fst (analyze_and_highlight ascii_lower counting_detector
         (lit "This is one. This is two.") fresh_world)
  = fst (analyze_and_highlight ascii_lower counting_detector
           (lit "This is one. This is two.")
           {| cache := None; dstate := 7; trace := [EvPromptEmpty] |}).
Proof.
  apply (@pipeline_deterministic ascii_lower nat counting_detector
           (lit "This is one. This is two.") fresh_world
           {| cache := None; dstate := 7; trace := [EvPromptEmpty] |}).
  intros sentences s1 s2. reflexivity.
Defined.

(** C1 (as the code has it): with a text that is not blank but shorter
    than the threshold, pressing the button only shows the warning with
    the two lengths: the model is not loaded, the classifier is not
    called and no result is produced.  With a text that is not blank and
    at least as long as the threshold, the classifier is called once on
    the sentences of the text and a result is shown. *)
Theorem below_threshold_blocks_analysis
  (lower : str -> str) (DState : Type) (pipeline : Detector DState)
  (text : str) (min_len : nat) (w : World DState) :
  strip text <> [] ->
  (List.length text < min_len ->
   on_analyze lower pipeline true text min_len w
   = (Some tt,
      {| cache := cache w; dstate := dstate w;
         trace := trace w ++ [EvBelowThreshold (List.length text) min_len] |}))
  /\ (min_len <= List.length text ->
      exists p html,
        trace (snd (on_analyze lower pipeline true text min_len w))
        = trace w
          ++ match cache w with Some _ => [] | None => [EvBuildModel] end
          ++ [EvClassify (simple_sentence_tokenize text);
              EvResult (verdict p) (bar_color p) p html]).
Proof.
  intro Hne. pose proof Hne as Ht. apply truthy_true in Ht.
  unfold on_analyze. rewrite Ht. cbn [negb]. split; intro Hlen.
  - apply Nat.ltb_lt in Hlen. rewrite Hlen. reflexivity.
  - apply Nat.ltb_ge in Hlen. rewrite Hlen.
    assert (Htok : simple_sentence_tokenize text <> []).
    { rewrite tokenize_unfold. intro H. now apply pieces_nil in H. }
    unfold bind at 1. unfold load_detector.
    destruct (cache w) as [d|] eqn:Hc.
    + destruct (@analyze_run lower DState d text w Htok) as [p [_ Hrun]].
      unfold bind. rewrite Hrun. cbn.
      do 2 eexists. rewrite <- app_assoc. reflexivity.
    + set (w1 := {| cache := Some pipeline; dstate := dstate w;
                    trace := trace w ++ [EvBuildModel] |}).
      destruct (@analyze_run lower DState pipeline text w1 Htok)
        as [p [_ Hrun]].
      unfold bind. rewrite Hrun. cbn.
      do 2 eexists. rewrite <- !app_assoc. reflexivity.
Qed.

Lemma below_threshold_blocks_analysis_witness :
  on_analyze ascii_lower counting_detector true
    (lit "This is one. This is two.") 200 fresh_world
  = (Some tt,
     {| cache := None; dstate := 0;
        trace := [EvBelowThreshold 25 200] |}).
Proof.
  apply (@below_threshold_blocks_analysis ascii_lower nat counting_detector
           (lit "This is one. This is two.") 200 fresh_world).
  - vm_compute. discriminate.
  - vm_compute. lia.
Defined.

(** C1 as stated fails: for "This is one. This is two." (25 characters)
    and the default threshold 200 the classifier is never called and no
    result is produced. *)
Lemma below_threshold_counterexample :
  let text := lit "This is one. This is two." in
  let w' := snd (on_analyze ascii_lower counting_detector true text 200
                   fresh_world) in
  strip text <> []
  /\ List.length text < 200
  /\ existsb is_classify (trace w') = false
  /\ existsb is_result (trace w') = false
  /\ dstate w' = 0
  /\ ~ (exists sentences, In (EvClassify sentences) (trace w')).
Proof.
  cbv zeta. split; [vm_compute; discriminate|].
  split; [vm_compute; lia|].
  repeat (split; [reflexivity|]).
  intros [sentences Hin]. vm_compute in Hin.
  destruct Hin as [Hin | []]. discriminate.
Qed.

End AppClaims.

(** * Further properties *)

(** ** The split and the sentences *)

Module SplitFacts.

Import SegmenterFacts.

Lemma upper_nonspace (c : char) : is_upper c = true -> isspace c = false.
Proof.
  unfold is_upper, isspace. intro H. apply andb_prop in H.
  destruct H as [Hlo Hhi]. apply N.leb_le in Hlo, Hhi.
  repeat match goal with
  | |- context [(?a <=? ?b)%N] => destruct (N.leb_spec a b)
  | |- context [(?a =? ?b)%N] => destruct (N.eqb_spec a b)
  end; simpl; try reflexivity; lia.
Qed.

Lemma terminal_nonspace (c : char) : is_terminal c = true -> isspace c = false.
Proof.
  unfold is_terminal. intro H.
  repeat (apply orb_prop in H; destruct H as [H | H]);
    apply N.eqb_eq in H; subst c; reflexivity.
Qed.

Lemma space_not_terminal (c : char) :
  isspace c = true -> is_terminal c = false.
Proof.
  intro H. destruct (is_terminal c) eqn:E; auto.
  apply terminal_nonspace in E. congruence.
Qed.

(** The first [n] characters of a text that begins with [n] spaces. *)
Lemma firstn_ws (s : str) :
  forall n, n <= ws_run s -> forallb isspace (firstn n s) = true.
Proof.
  induction s as [|c s IH]; intros [|n] H; try reflexivity.
  apply ws_run_cons in H. destruct H as [Hc Hn].
  cbn [firstn forallb]. now rewrite Hc, IH.
Qed.

Lemma weave_cons (p d : str) (ps ds : list str) :
  weave (p :: ps) (d :: ds) = p ++ d ++ weave ps ds.
Proof. reflexivity. Qed.

Lemma split_go_weave (s : str) :
  forall skip prev cur,
    skip <= ws_run s ->
    exists delims,
      S (List.length delims) = List.length (split_go skip prev cur s)
      /\ forallb is_gap delims = true
      /\ weave (split_go skip prev cur s) delims = rev cur ++ skipn skip s.
Proof.
  induction s as [|c s IH]; intros skip prev cur Hskip.
  - exists []. split; [reflexivity | split; [reflexivity|]].
    cbn [split_go weave]. now rewrite skipn_nil, app_nil_r.
  - cbn [split_go]. destruct skip as [|k].
    + destruct (match_delim prev (c :: s)) as [[|k]|] eqn:Hm.
      * destruct (IH 0 (Some c) (c :: cur)) as [ds [Hl [Hg Hw]]]; [lia|].
        exists ds. repeat split; auto.
        rewrite Hw. simpl. now rewrite <- app_assoc.
      * apply match_delim_bound in Hm. destruct Hm as [_ Hm].
        pose proof (firstn_ws _ Hm) as Hgap.
        apply ws_run_cons in Hm. destruct Hm as [Hc Hk].
        destruct (IH k (Some c) [] Hk) as [ds [Hl [Hg Hw]]].
        exists (firstn (S k) (c :: s) :: ds). repeat split.
        -- cbn [List.length]. now rewrite Hl.
        -- cbn [forallb]. rewrite Hg, andb_true_r.
           unfold is_gap. now rewrite Hgap.
        -- rewrite weave_cons, Hw. cbn [firstn rev app skipn].
           now rewrite firstn_skipn.
      * destruct (IH 0 (Some c) (c :: cur)) as [ds [Hl [Hg Hw]]]; [lia|].
        exists ds. repeat split; auto.
        rewrite Hw. simpl. now rewrite <- app_assoc.
    + apply ws_run_cons in Hskip. destruct Hskip as [Hc Hk].
      destruct (IH k (Some c) cur Hk) as [ds [Hl [Hg Hw]]].
      exists ds. repeat split; auto.
Qed.

Lemma split_go_nonempty (s : str) :
  forall skip prev cur, split_go skip prev cur s <> [].
Proof.
  induction s as [|c s IH]; intros skip prev cur; [discriminate|].
  cbn [split_go]. destruct skip as [|k]; [|apply IH].
  destruct (match_delim prev (c :: s)) as [[|k]|];
    (apply IH || discriminate).
Qed.

(** The piece under construction is a prefix of the first piece
    returned. *)
Lemma split_go_cur (s : str) :
  forall skip prev cur,
    split_go skip prev cur s
    = match split_go skip prev [] s with
      | p :: ps => (rev cur ++ p) :: ps
      | [] => []
      end.
Proof.
  induction s as [|c s IH]; intros skip prev cur.
  - simpl. now rewrite app_nil_r.
  - cbn [split_go]. destruct skip as [|k]; [|apply IH].
    destruct (match_delim prev (c :: s)) as [[|k]|].
    + rewrite (IH 0 (Some c) (c :: cur)), (IH 0 (Some c) [c]).
      destruct (split_go 0 (Some c) [] s); [reflexivity|].
      simpl. now rewrite <- app_assoc.
    + simpl. now rewrite app_nil_r.
    + rewrite (IH 0 (Some c) (c :: cur)), (IH 0 (Some c) [c]).
      destruct (split_go 0 (Some c) [] s); [reflexivity|].
      simpl. now rewrite <- app_assoc.
Qed.

Lemma backtrack_upper (s : str) (k m : nat) :
  backtrack s k = Some m -> lookahead_upper (skipn m s) = true.
Proof.
  induction k as [|k IH]; cbn [backtrack]; [discriminate|].
  destruct (lookahead_upper (skipn (S k) s)) eqn:E; auto.
  intro H. injection H as <-. exact E.
Qed.

Lemma match_delim_upper (prev : option char) (s : str) (m : nat) :
  match_delim prev s = Some m -> lookahead_upper (skipn m s) = true.
Proof.
  unfold match_delim. destruct prev as [p|]; [|discriminate].
  destruct (is_terminal p); [|discriminate]. apply backtrack_upper.
Qed.

Lemma match_delim_terminal (prev : option char) (s : str) (m : nat) :
  match_delim prev s = Some m ->
  exists p, prev = Some p /\ is_terminal p = true.
Proof.
  unfold match_delim. destruct prev as [p|]; [|discriminate].
  destruct (is_terminal p) eqn:E; [|discriminate]. now exists p.
Qed.

(** Every piece after a delimiter starts with the uppercase letter that
    the lookahead saw. *)
Lemma split_go_upper (s : str) :
  forall skip prev cur,
    skip <= ws_run s ->
    forallb starts_upper (tl (split_go skip prev cur s)) = true
    /\ (lookahead_upper (skipn skip s) = true -> cur = [] ->
        starts_upper (hd [] (split_go skip prev cur s)) = true).
Proof.
  induction s as [|c s IH]; intros skip prev cur Hskip.
  - split; [reflexivity|]. rewrite skipn_nil. discriminate.
  - cbn [split_go]. destruct skip as [|k].
    + assert (Hplain :
        forallb starts_upper (tl (split_go 0 (Some c) (c :: cur) s)) = true
        /\ (lookahead_upper (skipn 0 (c :: s)) = true -> cur = [] ->
            starts_upper (hd [] (split_go 0 (Some c) (c :: cur) s)) = true)).
      { destruct (IH 0 (Some c) (c :: cur)) as [Htl _]; [lia|].
        split; [exact Htl|]. intros Hup ->. rewrite split_go_cur.
        pose proof (@split_go_nonempty s 0 (Some c) []) as Hne.
        destruct (split_go 0 (Some c) [] s); [congruence|]. exact Hup. }
      destruct (match_delim prev (c :: s)) as [[|k]|] eqn:Hm; auto.
      pose proof (match_delim_upper _ _ Hm) as Hup.
      apply match_delim_bound in Hm. destruct Hm as [_ Hm].
      apply ws_run_cons in Hm. destruct Hm as [Hc Hk].
      destruct (IH k (Some c) [] Hk) as [Htl Hhd]. split.
      * cbn [tl]. specialize (Hhd Hup eq_refl).
        destruct (split_go k (Some c) [] s) as [|q qs]; [reflexivity|].
        cbn [hd tl forallb] in *. now rewrite Hhd, Htl.
      * cbn [skipn lookahead_upper]. intro Hu.
        apply upper_nonspace in Hu. congruence.
    + apply ws_run_cons in Hskip. destruct Hskip as [Hc Hk].
      apply (IH k (Some c) cur Hk).
Qed.

(** Every piece before a delimiter ends with the punctuation that the
    lookbehind saw. *)
Lemma split_go_terminal (s : str) :
  forall skip prev cur,
    skip <= ws_run s ->
    (0 < skip -> cur = []) ->
    match cur with
    | [] => forall p, prev = Some p -> is_terminal p = false
    | x :: _ => prev = Some x
    end ->
    forallb ends_terminal (removelast (split_go skip prev cur s)) = true.
Proof.
  induction s as [|c s IH]; intros skip prev cur Hskip Hcur Hprev;
    [reflexivity|].
  cbn [split_go]. destruct skip as [|k].
  - assert (Hplain :
      forallb ends_terminal
        (removelast (split_go 0 (Some c) (c :: cur) s)) = true).
    { apply IH; [lia | lia | reflexivity]. }
    destruct (match_delim prev (c :: s)) as [[|k]|] eqn:Hm; auto.
    destruct (match_delim_terminal _ _ Hm) as [p [-> Hp]].
    apply match_delim_bound in Hm. destruct Hm as [_ Hm].
    apply ws_run_cons in Hm. destruct Hm as [Hc Hk].
    assert (Hrest :
      forallb ends_terminal (removelast (split_go k (Some c) [] s)) = true).
    { apply IH; auto. intros q Hq. injection Hq as <-.
      now apply space_not_terminal. }
    destruct (split_go k (Some c) [] s) as [|q qs]; [reflexivity|].
    change (removelast (rev cur :: q :: qs))
      with (rev cur :: removelast (q :: qs)).
    cbn [forallb]. rewrite Hrest, andb_true_r.
    unfold ends_terminal. rewrite rev_involutive.
    destruct cur as [|x cur].
    + rewrite (Hprev p eq_refl) in Hp. discriminate.
    + injection Hprev as <-. exact Hp.
  - apply ws_run_cons in Hskip. destruct Hskip as [Hc Hk].
    rewrite (Hcur (Nat.lt_0_succ k)).
    apply IH; auto. intros q Hq. injection Hq as <-.
    now apply space_not_terminal.
Qed.

Lemma lstrip_snoc (a : str) (c : char) :
  isspace c = false -> exists pre, lstrip (a ++ [c]) = pre ++ [c].
Proof.
  intro Hc. induction a as [|x a IH]; simpl.
  - rewrite Hc. now exists [].
  - destruct (isspace x); [exact IH|]. now exists (x :: a).
Qed.

Lemma strip_starts_upper (p : str) :
  starts_upper p = true -> starts_upper (strip p) = true.
Proof.
  destruct p as [|c q]; [discriminate|]. cbn [starts_upper]. intro Hu.
  pose proof (upper_nonspace _ Hu) as Hc.
  unfold strip, rstrip. cbn [lstrip]. rewrite Hc. cbn [rev].
  destruct (@lstrip_snoc (rev q) c Hc) as [pre ->].
  rewrite rev_app_distr. exact Hu.
Qed.

Lemma strip_ends_terminal (p : str) :
  ends_terminal p = true -> ends_terminal (strip p) = true.
Proof.
  unfold ends_terminal. destruct (rev p) as [|t r] eqn:Hr; [discriminate|].
  intro Ht. pose proof (terminal_nonspace _ Ht) as Hc.
  assert (Hp : p = rev r ++ [t])
    by (rewrite <- (rev_involutive p), Hr; reflexivity).
  unfold strip, rstrip. rewrite rev_involutive, Hp.
  destruct (@lstrip_snoc (rev r) t Hc) as [pre ->].
  rewrite rev_app_distr. cbn [rev app lstrip]. now rewrite Hc.
Qed.

Lemma stripped_pieces_cons (x : str) (l : list str) :
  stripped_pieces (x :: l)
  = (if truthy (strip x) then [strip x] else []) ++ stripped_pieces l.
Proof.
  unfold stripped_pieces. simpl. now destruct (truthy (strip x)).
Qed.

Lemma stripped_pieces_all (P : str -> bool) (l : list str) :
  (forall p, P p = true -> P (strip p) = true) ->
  forallb P l = true -> forallb P (stripped_pieces l) = true.
Proof.
  intros HP. induction l as [|x l IH]; [reflexivity|].
  cbn [forallb]. intro H. apply andb_prop in H. destruct H as [Hx Hl].
  rewrite stripped_pieces_cons, forallb_app, (IH Hl), andb_true_r.
  destruct (truthy (strip x)); [|reflexivity].
  cbn [forallb]. now rewrite (HP _ Hx).
Qed.

Lemma forallb_tl {A} (P : A -> bool) (l : list A) :
  forallb P l = true -> forallb P (tl l) = true.
Proof.
  destruct l as [|x l]; auto. cbn [forallb tl]. intro H.
  now apply andb_prop in H.
Qed.

Lemma stripped_pieces_tl (P : str -> bool) (l : list str) :
  (forall p, P p = true -> P (strip p) = true) ->
  forallb P (tl l) = true -> forallb P (tl (stripped_pieces l)) = true.
Proof.
  intros HP H. destruct l as [|x l]; [reflexivity|]. cbn [tl] in H.
  pose proof (stripped_pieces_all P l HP H) as Hl.
  rewrite stripped_pieces_cons.
  destruct (truthy (strip x)); cbn [app tl]; auto using forallb_tl.
Qed.

Lemma stripped_pieces_removelast (P : str -> bool) (l : list str) :
  (forall p, P p = true -> P (strip p) = true) ->
  forallb P (removelast l) = true ->
  forallb P (removelast (stripped_pieces l)) = true.
Proof.
  intros HP. induction l as [|x l IH]; [reflexivity|].
  intro H. rewrite stripped_pieces_cons.
  destruct l as [|y l].
  - cbn [stripped_pieces List.map filter app]. rewrite app_nil_r.
    now destruct (truthy (strip x)).
  - change (removelast (x :: y :: l)) with (x :: removelast (y :: l)) in H.
    cbn [forallb] in H. apply andb_prop in H. destruct H as [Hx Hl].
    specialize (IH Hl).
    destruct (truthy (strip x)); cbn [app]; auto.
    destruct (stripped_pieces (y :: l)) as [|q qs]; [reflexivity|].
    change (removelast (strip x :: q :: qs))
      with (strip x :: removelast (q :: qs)).
    cbn [forallb]. now rewrite (HP _ Hx), IH.
Qed.

Lemma lstrip_head (s : str) :
  match lstrip s with
  | [] => True
  | c :: _ => isspace c = false
  end.
Proof.
  induction s as [|c s IH]; simpl; auto.
  destruct (isspace c) eqn:E; auto.
Qed.

Lemma lstrip_fix (s : str) :
  match s with [] => True | c :: _ => isspace c = false end ->
  lstrip s = s.
Proof. destruct s as [|c s]; simpl; auto. now intros ->. Qed.

Lemma lstrip_suffix (s : str) : exists pre, s = pre ++ lstrip s.
Proof.
  induction s as [|c s IH]; simpl.
  - now exists [].
  - destruct (isspace c).
    + destruct IH as [pre IH]. exists (c :: pre). simpl. now f_equal.
    + now exists [].
Qed.

(** A trimmed text does not begin with whitespace. *)
Lemma lstrip_strip (s : str) : lstrip (strip s) = strip s.
Proof.
  unfold strip, rstrip.
  set (a := lstrip s). set (b := lstrip (rev a)).
  apply lstrip_fix. destruct (lstrip_suffix (rev a)) as [pre Hpre].
  fold b in Hpre.
  assert (Ha : a = rev b ++ rev pre)
    by (rewrite <- (rev_involutive a), Hpre, rev_app_distr; reflexivity).
  pose proof (lstrip_head s) as Hh. fold a in Hh. rewrite Ha in Hh.
  destruct (rev b) as [|c t]; auto.
Qed.

(** A trimmed text does not end with whitespace. *)
Lemma rstrip_strip (s : str) : rstrip (strip s) = strip s.
Proof.
  unfold strip at 1 2. unfold rstrip. rewrite rev_involutive.
  f_equal. apply lstrip_fix, lstrip_head.
Qed.

(** Trimming a trimmed text changes nothing. *)
Lemma strip_idem (s : str) : strip (strip s) = strip s.
Proof.
  unfold strip at 1. now rewrite lstrip_strip, rstrip_strip.
Qed.

End SplitFacts.

Section SplitExtras.

Import SegmenterFacts SplitFacts.

(** X1: the split loses nothing but the delimiters: the pieces of
    [re.split], woven with one non-empty run of whitespace between each
    two neighbours, give the text back. *)
Theorem re_split_round_trip (text : str) :
  exists delims,
    S (List.length delims) = List.length (re_split text)
    /\ forallb is_gap delims = true
    /\ weave (re_split text) delims = text.
Proof.
  destruct (@split_go_weave text 0 None []) as [ds H]; [lia|].
  exists ds. exact H.
Qed.

(** X2: in the list of sentences every sentence after the first begins
    with an uppercase letter A-Z and every sentence before the last ends
    with one of [.], [!], [?]. *)
Theorem sentence_boundaries (text : str) :
  forallb starts_upper (tl (simple_sentence_tokenize text)) = true
  /\ forallb ends_terminal (removelast (simple_sentence_tokenize text))
     = true.
Proof.
  rewrite tokenize_unfold. unfold re_split. split.
  - apply stripped_pieces_tl; [exact strip_starts_upper|].
    apply split_go_upper. simpl. lia.
  - apply stripped_pieces_removelast; [exact strip_ends_terminal|].
    apply split_go_terminal; [lia | lia | discriminate].
Qed.

(** X3: every sentence returned is trimmed: stripping it again, on the
    left, on the right or on both sides, gives the same sentence. *)
Theorem sentences_trimmed (text : str) :
  Forall (fun s => strip s = s /\ lstrip s = s /\ rstrip s = s)
         (simple_sentence_tokenize text).
Proof.
  rewrite tokenize_unfold. unfold stripped_pieces.
  apply Forall_forall. intros s Hin. apply in_map_iff in Hin.
  destruct Hin as [x [<- _]].
  auto using strip_idem, lstrip_strip, rstrip_strip.
Qed.

End SplitExtras.

(** ** Escaping *)

Module EscapeFacts.

Import RenderFacts.

Lemma replace1_app (c : char) (rep a b : str) :
  replace1 c rep (a ++ b) = replace1 c rep a ++ replace1 c rep b.
Proof. unfold replace1. apply flat_map_app. Qed.

Lemma replace1_other (c d : char) (rep : str) :
  N.eqb c d = false -> replace1 d rep [c] = [c].
Proof. intro H. unfold replace1. simpl. now rewrite H. Qed.

Lemma html_escape_app (a b : str) :
  html_escape (a ++ b) = html_escape a ++ html_escape b.
Proof. unfold html_escape. now rewrite !replace1_app. Qed.

(** On one character the five replacements in a row do what a single
    look-up does: the ampersand of an entity is never escaped again. *)
Lemma html_escape_one (c : char) : html_escape [c] = esc_char c.
Proof.
  unfold html_escape, esc_char.
  destruct (N.eqb c ch_amp) eqn:E1;
    [apply N.eqb_eq in E1; subst c; reflexivity|].
  rewrite (@replace1_other c ch_amp _ E1).
  destruct (N.eqb c ch_lt) eqn:E2;
    [apply N.eqb_eq in E2; subst c; reflexivity|].
  rewrite (@replace1_other c ch_lt _ E2).
  destruct (N.eqb c ch_gt) eqn:E3;
    [apply N.eqb_eq in E3; subst c; reflexivity|].
  rewrite (@replace1_other c ch_gt _ E3).
  destruct (N.eqb c ch_dquote) eqn:E4;
    [apply N.eqb_eq in E4; subst c; reflexivity|].
  rewrite (@replace1_other c ch_dquote _ E4).
  destruct (N.eqb c ch_squote) eqn:E5;
    [apply N.eqb_eq in E5; subst c; reflexivity|].
  now rewrite (@replace1_other c ch_squote _ E5).
Qed.

Lemma html_escape_flat (s : str) : html_escape s = flat_map esc_char s.
Proof.
  induction s as [|c s IH]; [reflexivity|].
  change (c :: s) with ([c] ++ s).
  rewrite html_escape_app, html_escape_one, IH. reflexivity.
Qed.

(** The six shapes of an escaped character. *)
Lemma esc_char_shape (c : char) :
  (c = ch_amp /\ esc_char c = [38; 97; 109; 112; 59]%N)
  \/ (c = ch_lt /\ esc_char c = [38; 108; 116; 59]%N)
  \/ (c = ch_gt /\ esc_char c = [38; 103; 116; 59]%N)
  \/ (c = ch_dquote /\ esc_char c = [38; 113; 117; 111; 116; 59]%N)
  \/ (c = ch_squote /\ esc_char c = [38; 35; 120; 50; 55; 59]%N)
  \/ (c <> 38%N /\ esc_char c = [c]).
Proof.
  unfold esc_char.
  destruct (N.eqb_spec c ch_amp) as [->|H1]; [now left|].
  destruct (N.eqb_spec c ch_lt) as [->|H2]; [now right; left|].
  destruct (N.eqb_spec c ch_gt) as [->|H3]; [now right; right; left|].
  destruct (N.eqb_spec c ch_dquote) as [->|H4];
    [now right; right; right; left|].
  destruct (N.eqb_spec c ch_squote) as [->|H5];
    [now right; right; right; right; left|].
  right; right; right; right; right. split; auto.
Qed.

Ltac shapes c :=
  destruct (esc_char_shape c)
    as [[? ->] | [[? ->] | [[? ->] | [[? ->] | [[? ->] | [? ->]]]]]].

Lemma flat_esc_injective (s1 : str) :
  forall s2, flat_map esc_char s1 = flat_map esc_char s2 -> s1 = s2.
Proof.
  induction s1 as [|x1 s1 IH]; intros [|x2 s2]; cbn [flat_map].
  - reflexivity.
  - shapes x2; discriminate.
  - shapes x1; discriminate.
  - shapes x1; shapes x2; cbn [app]; intro Heq;
      try discriminate Heq;
      injection Heq; intros; subst; try congruence;
      f_equal; now apply IH.
Qed.

Lemma absent_cons (d c : char) (s : str) :
  absent d (c :: s) = true -> N.eqb c d = false /\ absent d s = true.
Proof.
  unfold absent. cbn [forallb]. intro H. apply andb_prop in H.
  destruct H as [Hc Hs]. split; auto. now apply negb_true_iff.
Qed.

End EscapeFacts.

Section EscapeExtras.

Import RenderFacts EscapeFacts.

(** X4: escaping works character by character: the five replacements in
    a row give the same text as replacing each character of the input once
    by its entity (or leaving it), so no ampersand produced by the escaping
    is escaped again, and escaping distributes over concatenation. *)
Theorem escape_is_single_pass (a b : str) :
  html_escape a = flat_map esc_char a
  /\ html_escape (a ++ b) = html_escape a ++ html_escape b.
Proof. split; [apply html_escape_flat | apply html_escape_app]. Qed.

(** X5: escaping loses nothing: two sentences with the same escaped text
    are the same sentence. *)
Theorem escape_injective (s1 s2 : str) :
  html_escape s1 = html_escape s2 -> s1 = s2.
Proof. rewrite !html_escape_flat. apply flat_esc_injective. Qed.

Lemma escape_injective_witness :
  lit "a<b" = [97; 60; 98]%N.
Proof.
  apply (escape_injective (lit "a<b") [97; 60; 98]%N). reflexivity.
Defined.

(** X6: a sentence without any of the five characters [&], [<], [>],
    double quote and single quote is rendered as it is. *)
Theorem escape_plain_text (s : str) :
  absent ch_amp s = true -> absent ch_lt s = true ->
  absent ch_gt s = true -> absent ch_dquote s = true ->
  absent ch_squote s = true ->
  html_escape s = s.
Proof.
  rewrite html_escape_flat.
  induction s as [|c s IH]; intros H1 H2 H3 H4 H5; [reflexivity|].
  apply absent_cons in H1, H2, H3, H4, H5.
  destruct H1 as [E1 H1], H2 as [E2 H2], H3 as [E3 H3],
           H4 as [E4 H4], H5 as [E5 H5].
  cbn [flat_map]. rewrite IH by assumption.
  unfold esc_char. now rewrite E1, E2, E3, E4, E5.
Qed.

Lemma escape_plain_text_witness :
  html_escape (lit "This is one.") = lit "This is one.".
Proof.
  apply (escape_plain_text (lit "This is one.")); reflexivity.
Defined.

End EscapeExtras.

(** ** Clamping, tiers and the page, once more *)

Module PipelineFacts.

Import SegmenterFacts ScoreFacts AppFacts.
Local Open Scope Q_scope.

Lemma clamp_cases (p : Q) :
  (p <= 0 /\ clamp p = 0)
  \/ (0 < p < 1 /\ clamp p = p)
  \/ (1 <= p /\ clamp p = 1).
Proof.
  unfold clamp.
  destruct (py_min_1 p) as [[H1 E1] | [H1 E1]]; rewrite E1.
  - destruct (py_max_0 p) as [[H0 E0] | [H0 E0]]; rewrite E0; auto.
  - right; right. split; auto.
Qed.

Lemma overall_prob_range (scores : list Q) :
  Forall (fun s => 0 <= s <= 1) scores ->
  exists p, overall_prob scores = Some p /\ 0 <= p <= 1.
Proof.
  intro Hall. destruct scores as [|x l].
  - exists 0. split; [reflexivity | lra].
  - assert (Hne : x :: l <> []) by discriminate.
    eexists. split; [now apply overall_prob_some|].
    now apply mean_range.
Qed.

Lemma builds_app (a b : list Event) :
  builds (a ++ b) = (builds a + builds b)%nat.
Proof. unfold builds. now rewrite filter_app, length_app. Qed.

Lemma combine_app_same {A B} (l1 l2 : list A) (m1 m2 : list B) :
  List.length l1 = List.length m1 ->
  combine (l1 ++ l2) (m1 ++ m2) = combine l1 m1 ++ combine l2 m2.
Proof.
  revert m1. induction l1 as [|x l1 IH]; intros [|y m1] H;
    try discriminate; [reflexivity|].
  simpl. f_equal. apply IH. now injection H.
Qed.

Lemma combine_cut {A B} (l : list A) (m : list B) :
  combine l m
  = combine (firstn (List.length m) l) (firstn (List.length l) m).
Proof.
  revert m. induction l as [|x l IH]; intros [|y m]; try reflexivity.
  simpl. f_equal. apply IH.
Qed.

Lemma nonblank_sentences (text : str) :
  strip text <> [] -> simple_sentence_tokenize text <> [].
Proof. rewrite tokenize_unfold. intros H E. now apply pieces_nil in E. Qed.

End PipelineFacts.

Section PipelineExtras.

Import SegmenterFacts ScoreFacts RenderFacts AppFacts PipelineFacts.
Local Open Scope Q_scope.

(** X7: clamping saturates: a value of 1 or more becomes exactly 1.0, a
    value of 0 or less exactly 0.0, a value strictly between is returned
    unchanged; clamping twice is clamping once, and clamping keeps the
    order of two values. *)
Theorem clamp_saturates (p q : Q) :
  (1 <= p -> clamp p = 1)
  /\ (p <= 0 -> clamp p = 0)
  /\ (0 < p < 1 -> clamp p = p)
  /\ clamp (clamp p) = clamp p
  /\ (p <= q -> clamp p <= clamp q).
Proof.
  destruct (clamp_cases p) as [[Hp Ep] | [[Hp Ep] | [Hp Ep]]];
    destruct (clamp_cases q) as [[Hq Eq] | [[Hq Eq] | [Hq Eq]]];
    rewrite ?Ep, ?Eq;
    (split; [intro; try reflexivity; lra
            |split; [intro; try reflexivity; lra
                    |split; [intro; try reflexivity; lra
                            |split; [|intro; lra]]]]);
    first [exact Ep | reflexivity].
Qed.

Lemma clamp_saturates_witness :
  clamp (12 # 10) = 1 /\ clamp (- (2 # 10)) = 0 /\ clamp (3 # 10) = 3 # 10
  /\ clamp (- (2 # 10)) <= clamp (12 # 10).
Proof.
  destruct (clamp_saturates (12 # 10) 0) as [Hhi _].
  destruct (clamp_saturates (- (2 # 10)) (12 # 10)) as [_ [Hlo [_ [_ Hle]]]].
  destruct (clamp_saturates (3 # 10) 0) as [_ [_ [Hmid _]]].
  split; [apply Hhi; discriminate|].
  split; [apply Hlo; discriminate|].
  split; [apply Hmid; split; reflexivity|].
  apply Hle. discriminate.
Defined.

(** X8: a higher score never gets a weaker highlight: the colour rank
    (none, moderate, strong) grows with the score. *)
Theorem highlight_monotone (p q : Q) :
  p <= q ->
  (color_rank (highlight_color p) <= color_rank (highlight_color q))%nat.
Proof.
  intro Hpq.
  assert (Hs : color_rank strong_color = 2%nat) by reflexivity.
  assert (Hm : color_rank moderate_color = 1%nat) by reflexivity.
  assert (Hn : color_rank none_color = 0%nat) by reflexivity.
  unfold highlight_color. cmp; rewrite ?Hs, ?Hm, ?Hn; try lia; lra.
Qed.

Lemma highlight_monotone_witness :
  (color_rank (highlight_color (6 # 10))
   <= color_rank (highlight_color (8 # 10)))%nat.
Proof. apply (@highlight_monotone (6 # 10) (8 # 10)). discriminate. Defined.

(** X9: a higher overall probability never gets a milder verdict: the
    verdict rank (likely human, possibly AI, likely AI) grows with the
    probability. *)
Theorem verdict_monotone (p q : Q) :
  p <= q -> (verdict_rank (verdict p) <= verdict_rank (verdict q))%nat.
Proof.
  intro Hpq. unfold verdict. cmp; cbn [verdict_rank]; try lia; lra.
Qed.

Lemma verdict_monotone_witness :
  (verdict_rank (verdict (3 # 10)) <= verdict_rank (verdict (7 # 10)))%nat.
Proof. apply (@verdict_monotone (3 # 10) (7 # 10)). discriminate. Defined.

(** X10: the two three-way choices of the page agree: the colour of the
    progress bar is always the one that belongs to the verdict shown. *)
Theorem bar_matches_verdict (p : Q) :
  bar_color p = verdict_bar (verdict p)
  /\ (verdict p = LikelyAI <-> bar_color p = bar_reddish)
  /\ (verdict p = LikelyHuman <-> bar_color p = bar_bluish).
Proof.
  assert (Hro : bar_reddish <> bar_orangey) by (vm_compute; discriminate).
  assert (Hrb : bar_reddish <> bar_bluish) by (vm_compute; discriminate).
  assert (Hob : bar_orangey <> bar_bluish) by (vm_compute; discriminate).
  unfold bar_color, verdict.
  destruct (Qgeb p (7 # 10)); [|destruct (Qltb (4 # 10) p)];
    cbn [verdict_bar]; (split; [reflexivity|]);
    split; split; intro H; congruence.
Qed.

(** X11: whatever the classifier answers (any labels, any numbers, any
    number of results), the pipeline returns, and the overall probability
    it returns lies in [0,1]. *)
Theorem pipeline_probability_range
  (lower : str -> str) (DState : Type) (detector : Detector DState)
  (text : str) (w : World DState) :
  exists html p,
    fst (analyze_and_highlight lower detector text w) = Some (html, p)
    /\ 0 <= p <= 1.
Proof.
  destruct (simple_sentence_tokenize text) as [|s l] eqn:Hs.
  - exists [], 0. rewrite analyze_blank by exact Hs. split; [reflexivity|lra].
  - assert (Hne : simple_sentence_tokenize text <> [])
      by (rewrite Hs; discriminate).
    destruct (@analyze_run lower DState detector text w Hne)
      as [p [Hp Hrun]].
    destruct (overall_prob_range (sentence_scores_range lower
               (fst (detector (simple_sentence_tokenize text) (dstate w)))))
      as [p' [Hp' Hrange]].
    rewrite Hp in Hp'. injection Hp' as <-.
    do 2 eexists. rewrite Hrun. split; [reflexivity | exact Hrange].
Qed.

(** X12: the classifier is never called on an empty batch or an empty
    sentence: for a blank text the pipeline returns the empty page and 0.0
    and leaves the process untouched; otherwise it calls the classifier
    exactly once, on a non-empty list of non-empty sentences, and leaves
    the cache alone. *)
Theorem classifier_batch_wellformed
  (lower : str -> str) (DState : Type) (detector : Detector DState)
  (text : str) (w : World DState) :
  (forallb isspace text = true
   /\ analyze_and_highlight lower detector text w = (Some ([], 0), w))
  \/ (strip text <> []
      /\ trace (snd (analyze_and_highlight lower detector text w))
         = trace w ++ [EvClassify (simple_sentence_tokenize text)]
      /\ cache (snd (analyze_and_highlight lower detector text w)) = cache w
      /\ simple_sentence_tokenize text <> []
      /\ Forall (fun s => s <> []) (simple_sentence_tokenize text)).
Proof.
  destruct (strip text) as [|c t] eqn:Hs.
  - left. split; [now apply strip_blank|].
    apply analyze_blank. rewrite tokenize_unfold. now apply pieces_nil.
  - right. assert (Hne : strip text <> []) by (rewrite Hs; discriminate).
    rewrite <- Hs. split; [exact Hne|].
    pose proof (@nonblank_sentences text Hne) as Htok.
    destruct (@analyze_run lower DState detector text w Htok)
      as [p [_ Hrun]].
    rewrite Hrun. repeat split; auto.
    rewrite tokenize_unfold. apply stripped_pieces_nonempty.
Qed.

(** X13: the page is rendered sentence by sentence: for two runs of
    sentences with their scores, the page of the whole is the page of the
    first run followed by the page of the second. *)
Theorem highlight_app
  (sentences1 sentences2 : list str) (scores1 scores2 : list Q) :
  List.length sentences1 = List.length scores1 ->
  highlight (sentences1 ++ sentences2) (scores1 ++ scores2)
  = highlight sentences1 scores1 ++ highlight sentences2 scores2.
Proof.
  intro Hlen. rewrite !highlight_concat, combine_app_same by exact Hlen.
  now rewrite map_app, concat_app.
Qed.

Lemma highlight_app_witness :
  highlight ([lit "One."] ++ [lit "Two."]) ([9 # 10] ++ [2 # 10])
  = highlight [lit "One."] [9 # 10] ++ highlight [lit "Two."] [2 # 10].
Proof. apply (@highlight_app [lit "One."] [lit "Two."] [9 # 10] [2 # 10]). reflexivity. Defined.

(** X14: sentences and scores are paired off from the front and the
    surplus is dropped without an error: the page shows only as many
    sentences as the classifier returned results, and only as many scores
    as there are sentences. *)
Theorem highlight_truncates (sentences : list str) (scores : list Q) :
  highlight sentences scores
  = highlight (firstn (List.length scores) sentences)
              (firstn (List.length sentences) scores)
  /\ highlight sentences [] = []
  /\ highlight [] scores = [].
Proof.
  split; [|split; [|reflexivity]].
  - unfold highlight. now rewrite <- combine_cut.
  - unfold highlight. now rewrite combine_nil.
Qed.

End PipelineExtras.

(** ** One click on the button *)

Module ClickFacts.

Import SegmenterFacts AppFacts PipelineFacts.

Section Click.

Variable lower : str -> str.
Variable DState : Type.
Variable pipeline : Detector DState.

(** The three ways a click ends. *)
Lemma click_blank (text : str) (min_len : nat) (w : World DState) :
  strip text = [] ->
  on_analyze lower pipeline true text min_len w
  = (Some tt, {| cache := cache w; dstate := dstate w;
                 trace := trace w ++ [EvPromptEmpty] |}).
Proof. intro H. unfold on_analyze. rewrite H. reflexivity. Qed.

Lemma click_short (text : str) (min_len : nat) (w : World DState) :
  strip text <> [] -> List.length text < min_len ->
  on_analyze lower pipeline true text min_len w
  = (Some tt, {| cache := cache w; dstate := dstate w;
                 trace := trace w
                          ++ [EvBelowThreshold (List.length text) min_len] |}).
Proof.
  intros Hne Hlen. unfold on_analyze.
  apply truthy_true in Hne. rewrite Hne. cbn [negb].
  apply Nat.ltb_lt in Hlen. now rewrite Hlen.
Qed.

Lemma click_analysis (text : str) (min_len : nat) (w : World DState) :
  strip text <> [] -> min_len <= List.length text ->
  let d := match cache w with Some d => d | None => pipeline end in
  let sentences := simple_sentence_tokenize text in
  exists p html,
    on_analyze lower pipeline true text min_len w
    = (Some tt,
       {| cache := Some d;
          dstate := snd (d sentences (dstate w));
          trace := trace w
                   ++ match cache w with
                      | Some _ => []
                      | None => [EvBuildModel]
                      end
                   ++ [EvClassify sentences;
                       EvResult (verdict p) (bar_color p) p html] |}).
Proof.
  intros Hne Hlen d sentences.
  pose proof (@nonblank_sentences text Hne) as Htok.
  unfold on_analyze. apply truthy_true in Hne. rewrite Hne. cbn [negb].
  apply Nat.ltb_ge in Hlen. rewrite Hlen.
  unfold bind at 1. unfold load_detector. subst d.
  destruct (cache w) as [d|] eqn:Hc.
  - destruct (@analyze_run lower DState d text w Htok) as [p [_ Hrun]].
    unfold bind. rewrite Hrun. unfold emit, after.
    cbn [fst snd cache dstate trace app]. rewrite Hc.
    do 2 eexists. rewrite <- app_assoc. reflexivity.
  - set (w1 := {| cache := Some pipeline; dstate := dstate w;
                  trace := trace w ++ [EvBuildModel] |}).
    destruct (@analyze_run lower DState pipeline text w1 Htok)
      as [p [_ Hrun]].
    unfold bind. rewrite Hrun. unfold emit, after. subst w1.
    cbn [fst snd cache dstate trace app].
    do 2 eexists. rewrite <- !app_assoc. reflexivity.
Qed.

End Click.

End ClickFacts.

Section ClickExtras.

Import SegmenterFacts AppFacts PipelineFacts ClickFacts.

(** X15: a click with an empty or whitespace-only text only shows the
    prompt to enter a text, whatever the threshold is: the model is not
    loaded and the classifier is not called. *)
Theorem blank_input_prompts
  (lower : str -> str) (DState : Type) (pipeline : Detector DState)
  (text : str) (min_len : nat) (w : World DState) :
  forallb isspace text = true ->
  on_analyze lower pipeline true text min_len w
  = (Some tt, {| cache := cache w; dstate := dstate w;
                 trace := trace w ++ [EvPromptEmpty] |}).
Proof. intro H. apply click_blank. now apply blank_strip. Qed.

Lemma blank_input_prompts_witness :
  on_analyze ascii_lower counting_detector true (lit "  ") 0 fresh_world
  = (Some tt, {| cache := None; dstate := 0; trace := [EvPromptEmpty] |}).
Proof.
  apply (@blank_input_prompts ascii_lower nat counting_detector
           (lit "  ") 0 fresh_world).
  reflexivity.
Defined.

(** X16: the model is built at most once per process: if the cache and
    the trace agree before a run of the script (nothing cached and nothing
    built, or the model cached and built once), they agree after it, so
    the trace never holds a second build; and when the analysis runs it is
    the built model that classifies the sentences. *)
Theorem model_built_once
  (lower : str -> str) (DState : Type) (pipeline : Detector DState)
  (analyze : bool) (text : str) (min_len : nat) (w : World DState) :
  cache_ok pipeline w ->
  let w' := snd (on_analyze lower pipeline analyze text min_len w) in
  cache_ok pipeline w'
  /\ builds (trace w') <= 1
  /\ (analyze = true -> strip text <> [] -> min_len <= List.length text ->
      cache w' = Some pipeline
      /\ dstate w'
         = snd (pipeline (simple_sentence_tokenize text) (dstate w))).
Proof.
  intros Hok w'.
  assert (Hle : forall v, cache_ok pipeline v -> builds (trace v) <= 1).
  { intros v Hv. unfold cache_ok in Hv.
    destruct (cache v); [destruct Hv as [_ ->] | rewrite Hv]; lia. }
  assert (Hemit : forall e, is_build e = false ->
            cache_ok pipeline {| cache := cache w; dstate := dstate w;
                                 trace := trace w ++ [e] |}).
  { intros e He. unfold cache_ok in *. cbn [cache trace].
    rewrite builds_app. unfold builds at 2 4. cbn [filter].
    rewrite He. cbn [List.length]. rewrite !Nat.add_0_r. exact Hok. }
  assert (Hmain : cache_ok pipeline w'
                  /\ (analyze = true -> strip text <> [] ->
                      min_len <= List.length text ->
                      cache w' = Some pipeline
                      /\ dstate w'
                         = snd (pipeline (simple_sentence_tokenize text)
                                         (dstate w)))).
  { subst w'. destruct analyze; [|split; [exact Hok | discriminate]].
    destruct (strip text) as [|c t] eqn:Hs.
    - rewrite click_blank by exact Hs. cbn [snd].
      split; [now apply Hemit | congruence].
    - assert (Hne : strip text <> []) by (rewrite Hs; discriminate).
      destruct (Nat.lt_ge_cases (List.length text) min_len) as [Hlt | Hge].
      + rewrite click_short by assumption. cbn [snd].
        split; [now apply Hemit | lia].
      + destruct (@click_analysis lower DState pipeline text min_len w
                    Hne Hge) as [p [html Hrun]].
        rewrite Hrun. cbn [snd cache dstate].
        unfold cache_ok in *. cbn [cache trace].
        rewrite !builds_app.
        destruct (cache w) as [d|]; [destruct Hok as [-> Hb] | ].
        * rewrite Hb. split; [split; reflexivity | now split].
        * rewrite Hok. split; [split; reflexivity | now split]. }
  destruct Hmain as [Hok' Hrun]. split; [exact Hok' | split; auto].
Qed.

Lemma model_built_once_witness :
  let w' := snd (on_analyze ascii_lower counting_detector true
                   (lit "Hello there. Bye now.") 5 fresh_world) in
  builds (trace w') <= 1 /\ dstate w' = 1.
Proof.
  cbv zeta.
  destruct (@model_built_once ascii_lower nat counting_detector true
              (lit "Hello there. Bye now.") 5 fresh_world)
    as [_ [Hb Hrun]].
  - reflexivity.
  - split; [exact Hb|].
    destruct Hrun as [_ Hd]; [reflexivity | vm_compute; discriminate
                             | vm_compute; lia |].
    rewrite Hd. reflexivity.
Defined.

(** X17: a click never raises and shows exactly one thing: the prompt
    for a blank text, else the below-threshold box for a short text, else
    one result after one call of the classifier; without a click nothing
    happens. *)
Theorem click_outcomes
  (lower : str -> str) (DState : Type) (pipeline : Detector DState)
  (analyze : bool) (text : str) (min_len : nat) (w : World DState) :
  fst (on_analyze lower pipeline analyze text min_len w) = Some tt
  /\ exists shown,
       trace (snd (on_analyze lower pipeline analyze text min_len w))
       = trace w ++ List.filter is_build shown ++ List.filter
                      (fun e => negb (is_build e)) shown
       /\ List.length (List.filter is_result shown)
          = List.length (List.filter is_classify shown)
       /\ List.length (List.filter is_classify shown) <= 1
       /\ (analyze = false -> shown = []).
Proof.
  destruct analyze.
  2:{ split; [reflexivity|]. exists []. cbn. rewrite app_nil_r.
      repeat split; auto. }
  destruct (strip text) as [|c t] eqn:Hs.
  - rewrite click_blank by exact Hs. split; [reflexivity|].
    exists [EvPromptEmpty]. cbn. repeat split; auto. discriminate.
  - assert (Hne : strip text <> []) by (rewrite Hs; discriminate).
    destruct (Nat.lt_ge_cases (List.length text) min_len) as [Hlt | Hge].
    + rewrite click_short by assumption. split; [reflexivity|].
      exists [EvBelowThreshold (List.length text) min_len]. cbn.
      repeat split; auto. discriminate.
    + destruct (@click_analysis lower DState pipeline text min_len w
                  Hne Hge) as [p [html Hrun]].
      rewrite Hrun. split; [reflexivity|]. cbn [snd trace].
      exists (match cache w with Some _ => [] | None => [EvBuildModel] end
              ++ [EvClassify (simple_sentence_tokenize text);
                  EvResult (verdict p) (bar_color p) p html]).
      destruct (cache w); cbn; repeat split; auto; discriminate.
Qed.

End ClickExtras.
